(** * Stochastic variational inference for the fairness of a coin

    A shallow embedding of the two notebooks of the repository,
    [stochastic-variational-inference.ipynb] (six heads, four tails, 1000
    steps) and its checkpoint variant (a tensor of 1000 flips, a
    subsampling plate, 5000 steps).

    - Python [float] arithmetic is an interface, [PyFloat], with two
      instances: the real numbers, under which the Beta moments are
      stated, and IEEE binary64 as given by [SpecFloat], on which the
      cells can be run.  [ZeroDivisionError] and the [ValueError] of
      [math.sqrt] are results.  Tensors hold real numbers.
    - The notebook's global namespace is a finite map from names to values;
      a cell is a function on namespaces that may raise.
    - [pyro.sample] records a site in a trace, refuses a name that is
      already there and, validation being on, arguments or values outside
      a distribution's domain; [pyro.param] keeps the unconstrained value
      and reads it back through the transform of its constraint.
    - What the inference engine computes (the random draws, the gradients,
      Adam's moments) is an input of the model: an oracle per step. *)

From Stdlib Require Import Reals Lra Lia ZArith.
From Stdlib Require Import Floats.SpecFloat.
From stdpp Require Import gmap strings list pretty sorting.

(* ===================================================================== *)
(** * Python floats *)
(* ===================================================================== *)

(** The operations the notebook applies to floats.  [x / y] raises
    [ZeroDivisionError] when [y] is zero and [math.sqrt] raises
    [ValueError] on a negative argument: both are [None] here. *)
Class PyFloat (F : Type) := {
  f_one : F;
  f_add : F → F → F;
  f_mul : F → F → F;
  f_truediv : F → F → option F;
  math_sqrt : F → option F
}.

Declare Scope pyfloat_scope.
Delimit Scope pyfloat_scope with py.
Notation "x + y" := (f_add x y) : pyfloat_scope.
Notation "x * y" := (f_mul x y) : pyfloat_scope.
Notation "x / y" := (f_truediv x y) : pyfloat_scope.
Notation "1.0" := f_one : pyfloat_scope.

(** ** Floats read as real numbers *)

Definition R_truediv (x y : R) : option R :=
  if Req_dec_T y 0 then None else Some (x / y)%R.

Definition R_sqrt (x : R) : option R :=
  if Rlt_dec x 0 then None else Some (sqrt x).

#[export] Instance R_float : PyFloat R := {|
  f_one := 1%R;
  f_add := Rplus;
  f_mul := Rmult;
  f_truediv := R_truediv;
  math_sqrt := R_sqrt
|}.

(** ** Floats as IEEE binary64 *)

Module Binary64.

Definition prec : Z := 53.
Definition emax : Z := 1024.

(** The double nearest to [m * 2 ^ e]. *)
Definition of_Z (m e : Z) : spec_float := binary_normalize prec emax m e false.

Definition truediv (x y : spec_float) : option spec_float :=
  match y with
  | S754_zero _ => None
  | _ => Some (SFdiv prec emax x y)
  end.

Definition sqrt (x : spec_float) : option spec_float :=
  match x with
  | S754_finite true _ _ | S754_infinity true => None
  | _ => Some (SFsqrt prec emax x)
  end.

#[global] Instance b64_float : PyFloat spec_float := {|
  f_one := of_Z 1 0;
  f_add := SFadd prec emax;
  f_mul := SFmul prec emax;
  f_truediv := truediv;
  math_sqrt := sqrt
|}.

End Binary64.

(* ===================================================================== *)
(** * The posterior summary (cells 11 and 12) *)
(* ===================================================================== *)

Section PosteriorSummary.
Context {F : Type} `{PyFloat F}.

(** [inferred_mean = alpha_q / (alpha_q + beta_q)] *)
Definition inferred_mean (alpha_q beta_q : F) : option F :=
  (alpha_q / (alpha_q + beta_q))%py.

(** [factor = beta_q / (alpha_q * (1.0 + alpha_q + beta_q))] *)
Definition factor (alpha_q beta_q : F) : option F :=
  (beta_q / (alpha_q * (1.0 + alpha_q + beta_q)))%py.

(** [inferred_std = inferred_mean * math.sqrt(factor)] *)
Definition inferred_std (alpha_q beta_q : F) : option F :=
  m ← inferred_mean alpha_q beta_q;
  fac ← factor alpha_q beta_q;
  s ← math_sqrt fac;
  Some (m * s)%py.

(** ** The same cells on the notebook's namespace *)

(** A global is a float or some other object (the data, the optimizer,
    the [SVI] instance, ...), of which only the identity matters here. *)
Inductive value :=
| VFloat (x : F)
| VObject (id : nat).

(** Reading a global as a float operand: [NameError] when it is unbound
    and [TypeError] when it holds no number are both [None]. *)
Definition load_float (ns : gmap string value) (name : string) : option F :=
  match ns !! name with
  | Some (VFloat x) => Some x
  | _ => None
  end.

Definition cell_inferred_mean (ns : gmap string value) : option (gmap string value) :=
  alpha_q ← load_float ns "alpha_q";
  beta_q ← load_float ns "beta_q";
  m ← (alpha_q / (alpha_q + beta_q))%py;
  Some (<["inferred_mean" := VFloat m]> ns).

Definition cell_inferred_std (ns : gmap string value) : option (gmap string value) :=
  beta_q ← load_float ns "beta_q";
  alpha_q ← load_float ns "alpha_q";
  fac ← (beta_q / (alpha_q * (1.0 + alpha_q + beta_q)))%py;
  let ns1 := <["factor" := VFloat fac]> ns in
  m ← load_float ns1 "inferred_mean";
  s ← math_sqrt fac;
  Some (<["inferred_std" := VFloat (m * s)%py]> ns1).

(** Both cells, in the order of the notebook. *)
Definition summarize (ns : gmap string value) : option (gmap string value) :=
  cell_inferred_mean ns ≫= cell_inferred_std.

End PosteriorSummary.

Arguments value F : clear implicits.

(** The variance of Beta(alpha_q, beta_q), as the specification writes it. *)
Definition beta_variance (alpha_q beta_q : R) : R :=
  ((alpha_q * beta_q) / ((alpha_q + beta_q) ^ 2 * (alpha_q + beta_q + 1)))%R.

(* ===================================================================== *)
(** * The part of Pyro the notebooks call *)
(* ===================================================================== *)

(** What a cell can raise. *)
Inductive exn :=
| DuplicateSite (name : string)   (* two sample sites with one name *)
| IndexError                      (* subscript or index out of range *)
| KeyError (name : string)        (* a parameter that was never registered *)
| ValueError                      (* a distribution refuses its arguments or a value *)
| EngineError.                    (* raised inside the inference engine *)

(** A computation that returns or raises. *)
Abbreviation result A := (exn + A)%type.

(** ** Distributions *)

Inductive distribution :=
| Beta (concentration1 concentration0 : R)
| Bernoulli (probs : R).

Section LogProb.
(** The logarithm of the Gamma function, which the Standard Library
    does not define; every result holds whatever it is. *)
Variable lgamma : R → R.
Open Scope R_scope.

Definition log_prob (d : distribution) (x : R) : R :=
  match d with
  | Beta a b =>
      (a - 1) * ln x + (b - 1) * ln (1 - x) + lgamma (a + b) - (lgamma a + lgamma b)
  | Bernoulli p => x * ln p + (1 - x) * ln (1 - p)
  end.
End LogProb.

(** With [pyro.enable_validation(True)], as both notebooks set it, a
    distribution checks its arguments and the values it scores. *)
Definition valid_args (d : distribution) : Prop :=
  match d with
  | Beta a b => (0 < a ∧ 0 < b)%R
  | Bernoulli p => (0 <= p ∧ p <= 1)%R
  end.

Definition in_support (d : distribution) (x : R) : Prop :=
  match d with
  | Beta _ _ => (0 <= x ∧ x <= 1)%R
  | Bernoulli _ => x = 0%R ∨ x = 1%R
  end.

#[export] Instance Rlt_decision (x y : R) : Decision (x < y)%R := Rlt_dec x y.
#[export] Instance Rle_decision (x y : R) : Decision (x <= y)%R := Rle_dec x y.
#[export] Instance Req_decision : EqDecision R := Req_dec_T.

#[export] Instance valid_args_dec (d : distribution) : Decision (valid_args d).
Proof. destruct d; simpl; apply _. Defined.

#[export] Instance in_support_dec (d : distribution) (x : R) : Decision (in_support d x).
Proof. destruct d; simpl; apply _. Defined.

(** ** Constrained parameters *)

Inductive constraint := real | positive.

(** [transform_to(constraint)]: from the unconstrained space, where the
    optimizer works, to the constrained one. *)
Definition transform_to (c : constraint) (u : R) : R :=
  match c with
  | real => u
  | positive => exp u
  end.

(** Its inverse, applied once to the initial value. *)
Definition transform_inv (c : constraint) (x : R) : R :=
  match c with
  | real => x
  | positive => ln x
  end.

(** ** Sample sites, traces, the parameter store *)

(** A site holds a tensor: one entry for a scalar, a batch under a plate.
    [site_scale] is the factor the enclosing plate puts on its
    log-density, 1 outside any plate. *)
Record site := {
  site_name : string;
  site_fn : distribution;
  site_value : list R;
  site_observed : bool;
  site_scale : R
}.

Record pyro_state := {
  param_store : gmap string (R * constraint);
  trace : list site
}.

(** A Pyro program reads and writes the store and the trace, or raises. *)
Definition Pyro (A : Type) : Type := pyro_state → result (A * pyro_state).

#[export] Instance Pyro_ret : MRet Pyro := λ A x st, inr (x, st).

#[export] Instance Pyro_bind : MBind Pyro := λ A B k m st,
  match m st with
  | inl e => inl e
  | inr (x, st') => k x st'
  end.

Definition raise {A} (e : exn) : Pyro A := λ _, inl e.

(** Appending a site, unless its name is taken or validation fails. *)
Definition record_site (s : site) : Pyro unit :=
  λ st,
    if decide (site_name s ∈ site_name <$> trace st) then inl (DuplicateSite (site_name s))
    else if decide (valid_args (site_fn s) ∧ Forall (in_support (site_fn s)) (site_value s))
    then inr (tt, {| param_store := param_store st; trace := trace st ++ [s] |})
    else inl ValueError.

Section Primitives.
(** The value an unobserved site takes: a draw of the generator when the
    guide runs, the guide's value when the model is replayed against it. *)
Variable draw : string → R.

(** [pyro.sample(name, fn, obs=...)] on a scalar. *)
Definition sample (name : string) (fn : distribution) (obs : option R) : Pyro R :=
  let v := default (draw name) obs in
  _ ← record_site {| site_name := name; site_fn := fn; site_value := [v];
                     site_observed := bool_decide (is_Some obs); site_scale := 1 |};
  mret v.
End Primitives.

(** [pyro.sample(name, fn, obs=batch)] inside a plate of the given scale. *)
Definition sample_batch (name : string) (fn : distribution) (obs : list R) (scale : R)
  : Pyro (list R) :=
  _ ← record_site {| site_name := name; site_fn := fn; site_value := obs;
                     site_observed := true; site_scale := scale |};
  mret obs.

(** [pyro.param(name, init, constraint=...)]: registered on first use. *)
Definition param (name : string) (init : R) (c : constraint) : Pyro R :=
  λ st,
    match param_store st !! name with
    | Some (u, c') => inr (transform_to c' u, st)
    | None =>
        let u := transform_inv c init in
        inr (transform_to c u,
             {| param_store := <[name := (u, c)]> (param_store st); trace := trace st |})
    end.


(** [data[i]] on a Python list. *)
Definition getitem {A} (l : list A) (i : nat) : Pyro A :=
  match l !! i with
  | Some x => mret x
  | None => raise IndexError
  end.

(** [for i, j in enumerate(l): body], counting from [start]. *)
Fixpoint for_enumerate {A} (start : nat) (l : list A) (body : nat → A → Pyro unit) : Pyro unit :=
  match l with
  | [] => mret tt
  | j :: rest => _ ← body start j; for_enumerate (S start) rest body
  end.

(** [pyro.iarange(name, size, subsample_size)]: the first [subsample_size]
    entries of [perm], the permutation of [range(size)] the generator
    drew, and the scale it puts on the sites inside.  The site Pyro keeps
    for the indices themselves is unobserved and scores zero; it is left
    out of the trace. *)
Definition iarange (perm : list nat) (name : string) (size subsample_size : nat)
  : Pyro (list nat * R) :=
  mret (take subsample_size perm, (INR size / INR subsample_size)%R).

(** [torch.zeros(n)] and [torch.ones(n)] *)
Definition zeros (n : nat) : list R := replicate n 0%R.
Definition ones (n : nat) : list R := replicate n 1%R.

(** [t[:stop] = src], for a [src] of [stop] entries. *)
Definition set_prefix (stop : nat) (src t : list R) : list R := src ++ drop stop t.

(** [tensor.index_select(0, ind)] *)
Definition index_select (l : list R) (ind : list nat) : Pyro (list R) :=
  match mapM (λ i, l !! i) ind with
  | Some xs => mret xs
  | None => raise IndexError
  end.

(** ** The loss and the optimizer *)

Section Engine.
Variable lgamma : R → R.
Open Scope R_scope.

(** The log-density of a site: that of its entries, summed and scaled. *)
Definition site_log_prob (s : site) : R :=
  site_scale s * foldr Rplus 0 (log_prob lgamma (site_fn s) <$> site_value s).

(** The log-density of a trace. *)
Definition log_prob_sum (tr : list site) : R :=
  foldr Rplus 0 (site_log_prob <$> tr).

(** Replaying the model against the guide: an unobserved site takes the
    value the guide gave to the site of that name. *)
Definition replay (guide_trace : list site) (draw : string → R) (name : string) : R :=
  match list_find (λ s, site_name s = name) guide_trace with
  | Some (_, s) => default (draw name) (head (site_value s))
  | None => draw name
  end.

(** What one step takes from the engine: the draws of the generator, and
    the new unconstrained value of each parameter (its gradient and
    Adam's moments folded in), or an exception. *)
Record oracle := {
  draws : string → R;
  optimizer : option (string → R → R)
}.

Definition optim_apply (upd : string → R → R) (store : gmap string (R * constraint))
  : gmap string (R * constraint) :=
  map_imap (λ name uc, Some (upd name (fst uc), snd uc)) store.

(** [svi.step(data)] with [loss=Trace_ELBO()]: the loss, and the store
    after the update. *)
Definition svi_step (model guide : (string → R) → Pyro unit) (orc : oracle)
    (store : gmap string (R * constraint)) : result (R * gmap string (R * constraint)) :=
  match guide (draws orc) {| param_store := store; trace := [] |} with
  | inl e => inl e
  | inr (_, g) =>
      match model (replay (trace g) (draws orc))
                  {| param_store := param_store g; trace := [] |} with
      | inl e => inl e
      | inr (_, m) =>
          let loss := - (log_prob_sum (trace m) - log_prob_sum (trace g)) in
          match optimizer orc with
          | None => inl EngineError
          | Some upd => inr (loss, optim_apply upd (param_store m))
          end
      end
  end.
End Engine.

(** [svi.step(data)] as a statement: the loss it returns is dropped. *)
Definition drop_loss {W} (r : result (R * W)) : result W :=
  match r with
  | inl e => inl e
  | inr (_, w) => inr w
  end.

(** [for step in it: body]; [log] lists the iterations that were started. *)
Fixpoint for_in {W} (it : list nat) (body : nat → W → result W) (w : W) (log : list nat)
  : result W * list nat :=
  match it with
  | [] => (inr w, log)
  | step :: rest =>
      match body step w with
      | inl e => (inl e, log ++ [step])
      | inr w' => for_in rest body w' (log ++ [step])
      end
  end.

(** [tnrange(n)] is [range(n)] with a progress bar. *)
Definition tnrange (n : nat) : list nat := seq 0 n.

(* ===================================================================== *)
(** * The notebook *)
(* ===================================================================== *)

Module Notebook.
Section Notebook.
Variable lgamma : R → R.
Open Scope R_scope.

Definition model (data : list R) (draw : string → R) : Pyro unit :=
  let alpha0 := 10 in
  let beta0 := 10 in
  f ← sample draw "latent_fairness" (Beta alpha0 beta0) None;
  for_enumerate 0 data (λ i j,
    x ← getitem data i;
    _ ← sample draw ("obs_" +:+ pretty i) (Bernoulli f) (Some x);
    mret tt).

Definition guide (data : list R) (draw : string → R) : Pyro unit :=
  alpha_q ← param "alpha_q" 15 positive;
  beta_q ← param "beta_q" 15 positive;
  _ ← sample draw "latent_fairness" (Beta alpha_q beta_q) None;
  mret tt.

(** Six heads and four tails. *)
Definition data : list R := replicate 6 1 ++ replicate 4 0.

Definition n_steps : nat := 1000.

(** The training cell for a given number of steps:
    [pyro.clear_param_store()], then the loop. *)
Definition train (n : nat) (orc : nat → oracle) (data : list R)
  : result (gmap string (R * constraint)) * list nat :=
  for_in (tnrange n)
         (λ step store, drop_loss (svi_step lgamma (model data) (guide data) (orc step) store))
         ∅ [].

Definition training_cell := train n_steps.

End Notebook.
End Notebook.

(* ===================================================================== *)
(** * The checkpoint variant *)
(* ===================================================================== *)

Module Checkpoint.
Section Checkpoint.
Variable lgamma : R → R.
Open Scope R_scope.

(** [perm] is the permutation of [range(100)] drawn for the plate. *)
Definition model (data : list R) (perm : list nat) (draw : string → R) : Pyro unit :=
  let alpha0 := 10 in
  let beta0 := 10 in
  f ← sample draw "latent_fairness" (Beta alpha0 beta0) None;
  '(ind, scale) ← iarange perm "data_loop" 100 50;
  obs ← index_select data ind;
  _ ← sample_batch "obs" (Bernoulli f) obs scale;
  mret tt.

Definition guide := Notebook.guide.

(** [data = torch.zeros(1000)], then [data[:600] = torch.ones(600)]. *)
Definition data : list R := set_prefix 600 (ones 600) (zeros 1000).

Definition n_steps : nat := 5000.

(** [perms step] is the permutation the plate draws at that step. *)
Definition train (n : nat) (orc : nat → oracle) (perms : nat → list nat) (data : list R)
  : result (gmap string (R * constraint)) * list nat :=
  for_in (tnrange n)
         (λ step store,
            drop_loss (svi_step lgamma (model data (perms step)) (guide data) (orc step) store))
         ∅ [].

Definition training_cell := train n_steps.

End Checkpoint.

(** [math.factorial] on an [int]: [ValueError] below zero. *)
Definition factorial (n : Z) : result Z :=
  if (n <? 0)%Z then inl ValueError else inr (Z.of_nat (fact (Z.to_nat n))).

(** The last cell: [def gamma(x): return factorial(x - 1)]. *)
Definition gamma (x : Z) : result Z := factorial (x - 1).

End Checkpoint.

(* ===================================================================== *)
(** * The cells after training *)
(* ===================================================================== *)



(** ** Printing with [%.3f] *)

(** [num / den] rounded to the nearest integer, ties to even; [den > 0]. *)
Definition round_half_even (num den : Z) : Z :=
  let q := (num / den)%Z in
  match (2 * (num mod den) ?= den)%Z with
  | Lt => q
  | Gt => (q + 1)%Z
  | Eq => if Z.even q then q else (q + 1)%Z
  end.

(** The magnitude [m * 2 ^ e] in thousandths, as [%.3f] rounds it. *)
Definition millis (m : BinNums.positive) (e : Z) : Z :=
  if (0 <=? e)%Z then (1000 * Z.pos m * 2 ^ e)%Z
  else round_half_even (1000 * Z.pos m) (2 ^ (- e)).

(** Three digits, zero-padded. *)
Definition digits3 (r : Z) : string :=
  if (r <? 10)%Z then "00" +:+ pretty r
  else if (r <? 100)%Z then "0" +:+ pretty r
  else pretty r.

(** ["%.3f" % x] on a float. *)
Definition format_f3 (x : spec_float) : string :=
  match x with
  | S754_nan => "nan"
  | S754_infinity s => if s then "-inf" else "inf"
  | S754_zero s => (if s then "-" else "") +:+ "0.000"
  | S754_finite s m e =>
      let q := millis m e in
      (if s then "-" else "") +:+ pretty (q / 1000)%Z +:+ "." +:+ digits3 (q mod 1000)
  end.

(** Cell 13: the message printed, from the two floats of the namespace. *)
Definition cell_print (ns : gmap string (value spec_float)) : option string :=
  m ← load_float ns "inferred_mean";
  s ← load_float ns "inferred_std";
  Some ("Based on the data and our prior belief, the fairness of the coin is "
        +:+ format_f3 m +:+ " +- " +:+ format_f3 s).

(* ===================================================================== *)
(** * Vocabulary of the statements *)
(* ===================================================================== *)

(** A coin flip: heads 1.0 or tails 0.0. *)
Definition binary (x : R) : Prop := x = 0%R ∨ x = 1%R.

#[export] Instance binary_dec (x : R) : Decision (binary x).
Proof. unfold binary. apply _. Defined.

(** The site the model records for observation [i]. *)
Definition obs_site (f : R) (i : nat) (x : R) : site :=
  {| site_name := "obs_" +:+ pretty i; site_fn := Bernoulli f; site_value := [x];
     site_observed := true; site_scale := 1 |}.

(** The site of the latent fairness, under distribution [fn]. *)
Definition latent_site (fn : distribution) (f : R) : site :=
  {| site_name := "latent_fairness"; site_fn := fn; site_value := [f];
     site_observed := false; site_scale := 1 |}.

(** The site the checkpoint model records for its batch. *)
Definition batch_site (f : R) (obs : list R) : site :=
  {| site_name := "obs"; site_fn := Bernoulli f; site_value := obs;
     site_observed := true; site_scale := (INR 100 / INR 50)%R |}.

(** The store the guide leaves when it starts from a cleared one. *)
Definition initial_store : gmap string (R * constraint) :=
  <["beta_q" := (ln 15, positive)]> (<["alpha_q" := (ln 15, positive)]> ∅).

(** A program that leaves the parameter store as it found it. *)
Definition store_preserving {A} (m : Pyro A) : Prop :=
  ∀ st x st', m st = inr (x, st') → param_store st' = param_store st.

(** Both variational parameters are registered under the positivity
    constraint. *)
Definition positive_params (store : gmap string (R * constraint)) : Prop :=
  (∃ u, store !! "alpha_q" = Some (u, positive)) ∧ (∃ u, store !! "beta_q" = Some (u, positive)).

(** An engine step that does not raise: the fairness drawn lies in the
    open unit interval and the optimizer returns. *)
Definition well_behaved (orc : oracle) : Prop :=
  (0 < draws orc "latent_fairness" < 1)%R ∧ is_Some (optimizer orc).


(** The numbers of heads and of tails among the flips. *)
Definition heads (data : list R) : nat := length (filter (λ x, x = 1%R) data).
Definition tails (data : list R) : nat := length (filter (λ x, x = 0%R) data).


(** ** Inputs of the examples *)

(** A namespace as the notebook has it before the summary cells. *)
Definition ns_b64 : gmap string (value spec_float) :=
  <["alpha_q" := VFloat (Binary64.of_Z 15 0)]>
    (<["beta_q" := VFloat (Binary64.of_Z 15 0)]> (<["data" := VObject 0]> ∅)).

(** An engine that draws one half and leaves the parameters where they are. *)
Definition still_oracle : oracle :=
  {| draws := λ _, (1 / 2)%R; optimizer := Some (λ _ u, u) |}.

(* ===================================================================== *)
(** * Properties of the posterior summary *)
(* ===================================================================== *)

Section SummaryRealFacts.
Open Scope R_scope.

Lemma R_truediv_nonzero (x y : R) : y ≠ 0 → R_truediv x y = Some (x / y).
Proof. intros Hy. unfold R_truediv. destruct (Req_dec_T y 0); [contradiction | reflexivity]. Qed.

Lemma R_sqrt_nonneg (x : R) : 0 <= x → R_sqrt x = Some (sqrt x).
Proof. intros Hx. unfold R_sqrt. destruct (Rlt_dec x 0); [lra | reflexivity]. Qed.

Lemma inferred_mean_real (a b : R) :
  0 < a → 0 < b → inferred_mean a b = Some (a / (a + b)).
Proof. intros Ha Hb. apply R_truediv_nonzero. lra. Qed.

Lemma factor_real (a b : R) :
  0 < a → 0 < b → factor a b = Some (b / (a * (1 + a + b))).
Proof. intros Ha Hb. apply R_truediv_nonzero. nra. Qed.

Lemma factor_pos (a b : R) : 0 < a → 0 < b → 0 < b / (a * (1 + a + b)).
Proof. intros Ha Hb. apply Rdiv_lt_0_compat; nra. Qed.

Lemma mean_pos (a b : R) : 0 < a → 0 < b → 0 < a / (a + b).
Proof. intros Ha Hb. apply Rdiv_lt_0_compat; lra. Qed.

Lemma inferred_std_real (a b : R) :
  0 < a → 0 < b →
  inferred_std a b = Some (a / (a + b) * sqrt (b / (a * (1 + a + b)))).
Proof.
  intros Ha Hb. unfold inferred_std.
  rewrite inferred_mean_real, factor_real by assumption. simpl.
  rewrite R_sqrt_nonneg by (left; apply factor_pos; assumption).
  reflexivity.
Qed.

(** The simplified expression is the square root of the variance. *)
Lemma simplified_std (a b : R) :
  0 < a → 0 < b →
  a / (a + b) * sqrt (b / (a * (1 + a + b))) = sqrt (beta_variance a b).
Proof.
  intros Ha Hb.
  pose proof (mean_pos a b Ha Hb) as Hm.
  rewrite <- (sqrt_square (a / (a + b))) at 1 by lra.
  rewrite <- sqrt_mult_alt by nra.
  f_equal. unfold beta_variance. field. repeat split; nra.
Qed.


End SummaryRealFacts.

(** C1. For positive [alpha_q] and [beta_q] the two cells return, with
    mean [alpha_q / (alpha_q + beta_q)] and standard deviation
    [mean * sqrt (beta_q / (alpha_q * (1 + alpha_q + beta_q)))], and that
    standard deviation is the square root of the variance of
    Beta(alpha_q, beta_q),
    [alpha_q * beta_q / ((alpha_q + beta_q)^2 * (alpha_q + beta_q + 1))]. *)
Theorem inferred_std_sqrt_variance (alpha_q beta_q : R) :
  (0 < alpha_q)%R → (0 < beta_q)%R →
  ∃ mean std : R,
    inferred_mean alpha_q beta_q = Some mean
    ∧ inferred_std alpha_q beta_q = Some std
    ∧ mean = (alpha_q / (alpha_q + beta_q))%R
    ∧ std = (mean * sqrt (beta_q / (alpha_q * (1 + alpha_q + beta_q))))%R
    ∧ std = sqrt (beta_variance alpha_q beta_q).
Proof.
  intros Ha Hb. eexists _, _.
  split; [apply inferred_mean_real; assumption |].
  split; [apply inferred_std_real; assumption |].
  split; [reflexivity |]. split; [reflexivity |].
  apply simplified_std; assumption.
Qed.

Lemma inferred_std_sqrt_variance_witness :
  (0 < 15)%R ∧ (0 < 15)%R ∧
  ∃ mean std : R,
    inferred_mean 15%R 15%R = Some mean
    ∧ inferred_std 15%R 15%R = Some std
    ∧ mean = (15 / (15 + 15))%R
    ∧ std = (mean * sqrt (15 / (15 * (1 + 15 + 15))))%R
    ∧ std = sqrt (beta_variance 15 15).
Proof. split; [lra |]. split; [lra |]. apply (inferred_std_sqrt_variance 15 15); lra. Defined.



(** In binary64 the quotient is rounded: far enough from the scale of the
    run, where [alpha_q + beta_q] rounds to [alpha_q], the bound is
    reached.  The real reading above does not cover such inputs. *)
Example inferred_mean_b64_rounds_to_one :
  inferred_mean (Binary64.of_Z 1 60) (Binary64.of_Z 1 0) = Some (Binary64.of_Z 1 0).
Proof. vm_compute. reflexivity. Qed.

(** Rounded quotients also stop growing: doubling [alpha_q] from [2^60]
    leaves the binary64 mean at 1.0. *)
Example inferred_mean_b64_plateau :
  inferred_mean (Binary64.of_Z 1 60) (Binary64.of_Z 1 0)
  = inferred_mean (Binary64.of_Z 1 61) (Binary64.of_Z 1 0).
Proof. vm_compute. reflexivity. Qed.





(** The same at the initial values, bit for bit in binary64. *)
Example inferred_mean_b64_symmetric :
  inferred_mean (Binary64.of_Z 15 0) (Binary64.of_Z 15 0) = Some (Binary64.of_Z 1 (-1)).
Proof. vm_compute. reflexivity. Qed.


(** ** The cells on the namespace *)

(** Lookups through a stack of inserts at known names. *)
Ltac lookups :=
  repeat first
    [ rewrite lookup_insert_eq
    | rewrite lookup_insert_ne by (discriminate || congruence) ].

Section SummaryCells.
Context {F : Type} `{PyFloat F}.
Implicit Types ns : gmap string (value F).

Lemma load_float_insert_ne ns (k name : string) (v : value F) :
  k ≠ name → load_float (<[k := v]> ns) name = load_float ns name.
Proof. intros Hne. unfold load_float. rewrite lookup_insert_ne by assumption. reflexivity. Qed.

Lemma load_float_insert_eq ns (k : string) (x : F) :
  load_float (<[k := VFloat x]> ns) k = Some x.
Proof. unfold load_float. rewrite lookup_insert_eq. reflexivity. Qed.

(** What [summarize] computes, in one equation: the three names are
    bound to the values of the pure functions at the two inputs. *)
Lemma summarize_spec ns :
  summarize ns =
    a ← load_float ns "alpha_q";
    b ← load_float ns "beta_q";
    m ← inferred_mean a b;
    fac ← factor a b;
    s ← math_sqrt fac;
    Some (<["inferred_std" := VFloat (m * s)%py]>
            (<["factor" := VFloat fac]> (<["inferred_mean" := VFloat m]> ns))).
Proof.
  unfold summarize, cell_inferred_mean, cell_inferred_std, inferred_mean, factor.
  destruct (load_float ns "alpha_q") as [a|] eqn:Ha; [| reflexivity].
  destruct (load_float ns "beta_q") as [b|] eqn:Hb; [| reflexivity].
  simpl.
  destruct (a / (a + b))%py as [m|]; [| reflexivity].
  simpl.
  rewrite !load_float_insert_ne, Ha, Hb by discriminate.
  simpl.
  destruct (b / (a * (1.0 + a + b)))%py as [fac|]; [| reflexivity].
  simpl.
  rewrite load_float_insert_ne, load_float_insert_eq by discriminate.
  reflexivity.
Qed.

Lemma summarize_inv ns ns1 :
  summarize ns = Some ns1 →
  ∃ a b m fac s,
    load_float ns "alpha_q" = Some a ∧ load_float ns "beta_q" = Some b
    ∧ inferred_mean a b = Some m ∧ factor a b = Some fac ∧ math_sqrt fac = Some s
    ∧ ns1 = <["inferred_std" := VFloat (m * s)%py]>
              (<["factor" := VFloat fac]> (<["inferred_mean" := VFloat m]> ns)).
Proof.
  rewrite summarize_spec. intros Hs.
  destruct (load_float ns "alpha_q") as [a|]; [| discriminate].
  destruct (load_float ns "beta_q") as [b|]; [| discriminate].
  simpl in Hs.
  destruct (inferred_mean a b) as [m|] eqn:Hm; [| discriminate].
  destruct (factor a b) as [fac|] eqn:Hf; [| discriminate].
  simpl in Hs.
  destruct (math_sqrt fac) as [s|] eqn:Hsq; [| discriminate].
  simpl in Hs. injection Hs as <-.
  exists a, b, m, fac, s. repeat split; assumption || reflexivity.
Qed.

(** C9. The summary is a function of [alpha_q] and [beta_q] alone, for
    any float arithmetic (binary64 included).  When the two cells return
    on a namespace: evaluating them again on the result returns the very
    same namespace; every name but [inferred_mean], [factor] and
    [inferred_std] keeps its binding; a namespace that binds [alpha_q] and
    [beta_q] to the same floats gets the same three values; and these
    are the values of the formulas. *)
Theorem summarize_pure ns ns1 :
  summarize ns = Some ns1 →
  summarize ns1 = Some ns1
  ∧ (∀ name : string,
       name ≠ "inferred_mean" → name ≠ "factor" → name ≠ "inferred_std" →
       ns1 !! name = ns !! name)
  ∧ (∀ ns' : gmap string (value F),
       load_float ns' "alpha_q" = load_float ns "alpha_q" →
       load_float ns' "beta_q" = load_float ns "beta_q" →
       ∃ ns1' : gmap string (value F),
         summarize ns' = Some ns1'
         ∧ ns1' !! "inferred_mean" = ns1 !! "inferred_mean"
         ∧ ns1' !! "factor" = ns1 !! "factor"
         ∧ ns1' !! "inferred_std" = ns1 !! "inferred_std")
  ∧ (∃ a b : F,
       load_float ns "alpha_q" = Some a ∧ load_float ns "beta_q" = Some b
       ∧ ns1 !! "inferred_mean" = VFloat <$> inferred_mean a b
       ∧ ns1 !! "inferred_std" = VFloat <$> inferred_std a b).
Proof.
  intros Hs.
  destruct (summarize_inv _ _ Hs) as (a & b & m & fac & s & Ha & Hb & Hm & Hf & Hsq & ->).
  split; [| split; [| split]].
  - rewrite summarize_spec.
    rewrite !load_float_insert_ne, Ha, Hb by discriminate. simpl.
    rewrite Hm, Hf. simpl. rewrite Hsq. simpl. f_equal.
    apply map_eq. intros k.
    destruct (decide (k = "inferred_std")) as [-> | Hk1]; [by lookups |].
    destruct (decide (k = "factor")) as [-> | Hk2]; [by lookups |].
    destruct (decide (k = "inferred_mean")) as [-> | Hk3]; by lookups.
  - intros name H1 H2 H3. rewrite !lookup_insert_ne by congruence. reflexivity.
  - intros ns' Ha' Hb'. eexists. split.
    + rewrite summarize_spec, Ha', Hb', Ha, Hb. simpl. rewrite Hm, Hf. simpl.
      rewrite Hsq. reflexivity.
    + lookups. repeat split; reflexivity.
  - exists a, b. split; [assumption |]. split; [assumption |].
    lookups. unfold inferred_std. rewrite Hm, Hf. simpl. rewrite Hsq. split; reflexivity.
Qed.

End SummaryCells.

Lemma summarize_pure_witness :
  ∃ ns1 : gmap string (value spec_float),
    summarize ns_b64 = Some ns1
    ∧ summarize ns1 = Some ns1
    ∧ ns1 !! "data" = Some (VObject 0)
    ∧ ns1 !! "inferred_mean" = Some (VFloat (Binary64.of_Z 1 (-1))).
Proof.
  assert (Hs : summarize ns_b64 = Some (default ∅ (summarize ns_b64)))
    by (vm_compute; reflexivity).
  exists (default ∅ (summarize ns_b64)).
  destruct (summarize_pure _ _ Hs) as (Hidem & Hframe & _ & _).
  split; [exact Hs |]. split; [exact Hidem |].
  split; [rewrite Hframe by discriminate; reflexivity |].
  vm_compute. reflexivity.
Defined.

(* ===================================================================== *)
(** * Properties of the model and the guide *)
(* ===================================================================== *)

Section PyroFacts.
Open Scope R_scope.

Lemma bind_inr {A B} (m : Pyro A) (k : A → Pyro B) st x st' :
  m st = inr (x, st') → (m ≫= k) st = k x st'.
Proof. intros Hm. unfold mbind, Pyro_bind. rewrite Hm. reflexivity. Qed.

Lemma bind_inv {A B} (m : Pyro A) (k : A → Pyro B) st y st'' :
  (m ≫= k) st = inr (y, st'') →
  ∃ x st', m st = inr (x, st') ∧ k x st' = inr (y, st'').
Proof.
  unfold mbind, Pyro_bind. destruct (m st) as [e | [x st']]; [discriminate |].
  intros Hk. exists x, st'. split; [reflexivity | exact Hk].
Qed.

Lemma record_site_ok (s : site) st :
  site_name s ∉ site_name <$> trace st →
  valid_args (site_fn s) →
  Forall (in_support (site_fn s)) (site_value s) →
  record_site s st = inr (tt, {| param_store := param_store st; trace := trace st ++ [s] |}).
Proof.
  intros Hfresh Hargs Hsup. unfold record_site.
  destruct (decide (site_name s ∈ site_name <$> trace st)); [contradiction |].
  destruct (decide (valid_args (site_fn s) ∧ Forall (in_support (site_fn s)) (site_value s)))
    as [_ | Hno]; [reflexivity | exfalso; apply Hno; split; assumption].
Qed.

Lemma record_site_inv (s : site) st u st' :
  record_site s st = inr (u, st') →
  st' = {| param_store := param_store st; trace := trace st ++ [s] |}
  ∧ valid_args (site_fn s) ∧ Forall (in_support (site_fn s)) (site_value s).
Proof.
  unfold record_site.
  destruct (decide (site_name s ∈ site_name <$> trace st)); [discriminate |].
  destruct (decide (valid_args (site_fn s) ∧ Forall (in_support (site_fn s)) (site_value s)))
    as [[Hargs Hsup] | _]; [| discriminate].
  intros [= _ <-]. repeat split; assumption.
Qed.

(** ** Site names *)

Lemma obs_name_inj (i j : nat) : "obs_" +:+ pretty i = "obs_" +:+ pretty j → i = j.
Proof. intros Heq. apply (inj (String.append "obs_")) in Heq. exact (inj pretty _ _ Heq). Qed.

Lemma obs_name_not_latent (i : nat) : "obs_" +:+ pretty i ≠ "latent_fairness".
Proof. simpl. discriminate. Qed.

Lemma obs_name_fresh (n : nat) :
  "obs_" +:+ pretty n ∉ "latent_fairness" :: ((λ i : nat, "obs_" +:+ pretty i) <$> seq 0 n).
Proof.
  intros Hin. apply elem_of_cons in Hin as [Heq | Hin].
  - exact (obs_name_not_latent n Heq).
  - apply list_elem_of_fmap in Hin as (i & Heq & Hi).
    apply obs_name_inj in Heq as <-. apply elem_of_seq in Hi. lia.
Qed.

(** ** The loop of the model *)

Lemma model_loop (draw : string → R) (f : R) (data : list R) :
  0 <= f <= 1 →
  ∀ (l pre : list R) (st : pyro_state),
    data = pre ++ l →
    Forall binary l →
    site_name <$> trace st
      = "latent_fairness" :: ((λ i : nat, "obs_" +:+ pretty i) <$> seq 0 (length pre)) →
    for_enumerate (length pre) l
      (λ i j,
         x ← getitem data i;
         _ ← sample draw ("obs_" +:+ pretty i) (Bernoulli f) (Some x);
         mret tt) st
    = inr (tt, {| param_store := param_store st;
                  trace := trace st ++ imap (λ k x, obs_site f (length pre + k) x) l |}).
Proof.
  intros Hf l. induction l as [| x l IH]; intros pre st Hdata Hbin Hnames.
  - simpl. rewrite app_nil_r. destruct st; reflexivity.
  - apply Forall_cons in Hbin as [Hx Hl]. cbn [for_enumerate].
    assert (Hget : getitem data (length pre) st = inr (x, st)).
    { unfold getitem. rewrite Hdata, list_lookup_middle by reflexivity. reflexivity. }
    assert (Hrec : record_site (obs_site f (length pre) x) st
                   = inr (tt, {| param_store := param_store st;
                                 trace := trace st ++ [obs_site f (length pre) x] |})).
    { apply record_site_ok.
      - rewrite Hnames. apply obs_name_fresh.
      - simpl. exact Hf.
      - simpl. constructor; [exact Hx | constructor]. }
    erewrite bind_inr; cycle 1.
    { erewrite bind_inr by exact Hget.
      unfold sample. simpl.
      erewrite bind_inr; cycle 1.
      { erewrite bind_inr by exact Hrec. reflexivity. }
      reflexivity. }
    replace (S (length pre)) with (length (pre ++ [x])) by (rewrite length_app; simpl; lia).
    rewrite (IH (pre ++ [x])).
    + cbn [param_store trace]. rewrite <- app_assoc, imap_cons.
      rewrite Nat.add_0_r. do 4 f_equal. simpl. f_equal.
      apply imap_ext. intros k y _. simpl. f_equal. rewrite length_app. simpl. lia.
    + rewrite <- app_assoc. exact Hdata.
    + exact Hl.
    + simpl. rewrite fmap_app, Hnames, length_app. simpl.
      rewrite Nat.add_1_r, seq_S, fmap_app. reflexivity.
Qed.

(** ** Log-densities of traces *)

Variable lgamma : R → R.

Lemma log_prob_sum_cons (s : site) (tr : list site) :
  log_prob_sum lgamma (s :: tr) = site_log_prob lgamma s + log_prob_sum lgamma tr.
Proof. reflexivity. Qed.

(** A scalar site outside any plate scores its one value. *)
Lemma site_log_prob_scalar (s : site) (x : R) :
  site_value s = [x] → site_scale s = 1 →
  site_log_prob lgamma s = log_prob lgamma (site_fn s) x.
Proof. intros Hv Hs. unfold site_log_prob. rewrite Hv, Hs. simpl. ring. Qed.

Lemma log_prob_sum_obs_sites (f : R) (l : list R) :
  ∀ g : nat → nat,
    log_prob_sum lgamma (imap (λ k x, obs_site f (g k) x) l)
    = foldr Rplus 0 (log_prob lgamma (Bernoulli f) <$> l).
Proof.
  induction l as [| x l IH]; intros g; [reflexivity |].
  rewrite imap_cons, log_prob_sum_cons.
  change (imap ((λ k x, obs_site f (g k) x) ∘ S) l)
    with (imap (λ k x, obs_site f ((g ∘ S) k) x) l).
  rewrite IH, (site_log_prob_scalar _ x) by reflexivity. reflexivity.
Qed.

(** The model, run on an empty trace: it returns, leaves the store
    alone, and records the latent site followed by one site per
    observation. *)
Lemma model_run (draw : string → R) (data : list R)
    (store : gmap string (R * constraint)) :
  0 < draw "latent_fairness" < 1 →
  Forall binary data →
  Notebook.model data draw {| param_store := store; trace := [] |}
  = inr (tt, {| param_store := store;
                trace := latent_site (Beta 10 10) (draw "latent_fairness")
                         :: imap (obs_site (draw "latent_fairness")) data |}).
Proof.
  intros Hf Hbin. unfold Notebook.model.
  erewrite bind_inr; cycle 1.
  { unfold sample. erewrite bind_inr; [reflexivity |].
    apply record_site_ok; simpl.
    - apply not_elem_of_nil.
    - split; lra.
    - constructor; [split; lra | constructor]. }
  simpl.
  rewrite (model_loop draw (draw "latent_fairness") data ltac:(lra) data []);
    [reflexivity | reflexivity | exact Hbin | reflexivity].
Qed.

End PyroFacts.

(** C2. For a fairness in (0,1) and any sequence of coin flips, the model
    returns, leaves the parameter store as it was, and the log-density of
    its trace is the log-density of the fairness under Beta(10, 10) plus
    the sum, over all observations, of the log-density of the observation
    under Bernoulli(fairness). *)
Theorem model_log_prob (lgamma : R → R) (draw : string → R) (data : list R)
    (store : gmap string (R * constraint)) :
  (0 < draw "latent_fairness" < 1)%R →
  Forall binary data →
  ∃ st : pyro_state,
    Notebook.model data draw {| param_store := store; trace := [] |} = inr (tt, st)
    ∧ param_store st = store
    ∧ length (trace st) = S (length data)
    ∧ log_prob_sum lgamma (trace st)
      = (log_prob lgamma (Beta 10 10) (draw "latent_fairness")
         + foldr Rplus 0 (log_prob lgamma (Bernoulli (draw "latent_fairness")) <$> data))%R.
Proof.
  intros Hf Hbin. eexists. split; [apply model_run; assumption |].
  split; [reflexivity |]. split; [simpl; rewrite length_imap; reflexivity |].
  cbn [trace]. rewrite log_prob_sum_cons.
  rewrite (log_prob_sum_obs_sites lgamma _ data (λ k, k)).
  rewrite (site_log_prob_scalar lgamma _ (draw "latent_fairness")) by reflexivity.
  reflexivity.
Qed.

Lemma data_binary : Forall binary Notebook.data.
Proof. unfold Notebook.data. simpl. repeat constructor; (by left) || (by right). Qed.

Lemma model_log_prob_witness :
  (0 < 1 / 2 < 1)%R ∧ Forall binary Notebook.data ∧
  ∃ st : pyro_state,
    Notebook.model Notebook.data (λ _, (1 / 2)%R) {| param_store := ∅; trace := [] |}
    = inr (tt, st)
    ∧ param_store st = ∅
    ∧ length (trace st) = S (length Notebook.data)
    ∧ log_prob_sum (λ _, 0%R) (trace st)
      = (log_prob (λ _, 0%R) (Beta 10 10) (1 / 2)
         + foldr Rplus 0 (log_prob (λ _, 0%R) (Bernoulli (1 / 2)) <$> Notebook.data))%R.
Proof.
  split; [lra |]. split; [exact data_binary |].
  apply (model_log_prob (λ _, 0%R) (λ _, (1 / 2)%R) Notebook.data ∅);
    [lra | exact data_binary].
Defined.

(* ===================================================================== *)
(** * Programs that leave the parameter store alone *)
(* ===================================================================== *)

Create HintDb pyro_sp.

Section StorePreserving.

Lemma sp_ret {A} (x : A) : store_preserving (mret x).
Proof. intros st y st' [= _ <-]. reflexivity. Qed.

Lemma sp_raise {A} (e : exn) : store_preserving (@raise A e).
Proof. intros st y st' Hr. discriminate Hr. Qed.

Lemma sp_bind {A B} (m : Pyro A) (k : A → Pyro B) :
  store_preserving m → (∀ x, store_preserving (k x)) → store_preserving (m ≫= k).
Proof.
  intros Hm Hk st y st'' Hr.
  apply bind_inv in Hr as (x & st' & Hm' & Hk').
  rewrite (Hk _ _ _ _ Hk'). exact (Hm _ _ _ Hm').
Qed.

Lemma sp_record_site (s : site) : store_preserving (record_site s).
Proof. intros st u st' Hr. apply record_site_inv in Hr as [-> _]. reflexivity. Qed.

Lemma sp_sample draw name fn obs : store_preserving (sample draw name fn obs).
Proof. unfold sample. apply sp_bind; [apply sp_record_site | intros; apply sp_ret]. Qed.

Lemma sp_sample_batch name fn obs scale : store_preserving (sample_batch name fn obs scale).
Proof. unfold sample_batch. apply sp_bind; [apply sp_record_site | intros; apply sp_ret]. Qed.

Lemma sp_getitem {A} (l : list A) (i : nat) : store_preserving (getitem l i).
Proof. unfold getitem. destruct (l !! i); [apply sp_ret | apply sp_raise]. Qed.

Lemma sp_iarange perm name size subsample_size :
  store_preserving (iarange perm name size subsample_size).
Proof. apply sp_ret. Qed.

Lemma sp_index_select (l : list R) (ind : list nat) : store_preserving (index_select l ind).
Proof. unfold index_select. destruct (mapM _ ind); [apply sp_ret | apply sp_raise]. Qed.

Lemma sp_for_enumerate {A} (l : list A) (body : nat → A → Pyro unit) :
  (∀ i j, store_preserving (body i j)) →
  ∀ start, store_preserving (for_enumerate start l body).
Proof.
  intros Hbody. induction l as [| j l IH]; intros start; simpl.
  - apply sp_ret.
  - apply sp_bind; [apply Hbody | intros _; apply IH].
Qed.

End StorePreserving.

#[export] Hint Resolve sp_ret sp_raise sp_record_site sp_sample sp_sample_batch
  sp_getitem sp_iarange sp_index_select : pyro_sp.

Lemma sp_model (data : list R) (draw : string → R) :
  store_preserving (Notebook.model data draw).
Proof.
  unfold Notebook.model. apply sp_bind; [auto with pyro_sp |]. intros f.
  apply sp_for_enumerate. intros i j.
  repeat (apply sp_bind; [auto with pyro_sp | intros ?]). auto with pyro_sp.
Qed.


(* ===================================================================== *)
(** * The guide and the parameter store *)
(* ===================================================================== *)

Section GuideFacts.
Open Scope R_scope.


(** The optimizer moves the unconstrained values and nothing else. *)
Lemma optim_apply_lookup upd (store : gmap string (R * constraint)) (name : string) u c :
  store !! name = Some (u, c) → optim_apply upd store !! name = Some (upd name u, c).
Proof. intros Hl. unfold optim_apply. rewrite map_lookup_imap, Hl. reflexivity. Qed.

Lemma optim_apply_positive upd (store : gmap string (R * constraint)) :
  positive_params store → positive_params (optim_apply upd store).
Proof.
  intros [[ua Ha] [ub Hb]]. split; eexists; apply optim_apply_lookup; eassumption.
Qed.

Lemma initial_store_positive : positive_params initial_store.
Proof. split; eexists; unfold initial_store; by lookups. Qed.


(** The guide on a cleared store: both parameters are registered at 15. *)
Lemma guide_fresh (data : list R) (draw : string → R) :
  0 <= draw "latent_fairness" <= 1 →
  Notebook.guide data draw {| param_store := ∅; trace := [] |}
  = inr (tt, {| param_store := initial_store;
                trace := [latent_site (Beta 15 15) (draw "latent_fairness")] |}).
Proof.
  intros Hf. unfold Notebook.guide.
  erewrite bind_inr; cycle 1.
  { unfold param. simpl. rewrite lookup_empty. reflexivity. }
  erewrite bind_inr; cycle 1.
  { unfold param. simpl. rewrite lookup_insert_ne, lookup_empty by discriminate.
    reflexivity. }
  simpl. rewrite exp_ln by lra.
  erewrite bind_inr; cycle 1.
  { unfold sample. erewrite bind_inr; [reflexivity |].
    apply record_site_ok; simpl.
    - apply not_elem_of_nil.
    - split; lra.
    - constructor; [exact Hf | constructor]. }
  reflexivity.
Qed.

(** The guide on a store that has both parameters: it reads them. *)
Lemma guide_registered (data : list R) (draw : string → R)
    (store : gmap string (R * constraint)) (ua ub : R) :
  store !! "alpha_q" = Some (ua, positive) →
  store !! "beta_q" = Some (ub, positive) →
  0 <= draw "latent_fairness" <= 1 →
  Notebook.guide data draw {| param_store := store; trace := [] |}
  = inr (tt, {| param_store := store;
                trace := [latent_site (Beta (exp ua) (exp ub)) (draw "latent_fairness")] |}).
Proof.
  intros Ha Hb Hf. unfold Notebook.guide.
  erewrite bind_inr; cycle 1.
  { unfold param. simpl. rewrite Ha. reflexivity. }
  erewrite bind_inr; cycle 1.
  { unfold param. simpl. rewrite Hb. reflexivity. }
  simpl.
  erewrite bind_inr; cycle 1.
  { unfold sample. erewrite bind_inr; [reflexivity |].
    apply record_site_ok; simpl.
    - apply not_elem_of_nil.
    - split; apply exp_pos.
    - constructor; [exact Hf | constructor]. }
  reflexivity.
Qed.



Lemma guide_returns (data : list R) (draw : string → R)
    (store : gmap string (R * constraint)) :
  store = ∅ ∨ positive_params store →
  0 <= draw "latent_fairness" <= 1 →
  ∃ g, Notebook.guide data draw {| param_store := store; trace := [] |} = inr (tt, g)
       ∧ positive_params (param_store g)
       ∧ ∃ fn, trace g = [latent_site fn (draw "latent_fairness")].
Proof.
  intros [-> | Hpos] Hf.
  - eexists. split; [apply guide_fresh; exact Hf |].
    split; [exact initial_store_positive | eexists; reflexivity].
  - pose proof Hpos as [[ua Ha] [ub Hb]].
    eexists. split; [apply (guide_registered _ _ _ ua ub); assumption |].
    split; [exact Hpos | eexists; reflexivity].
Qed.

End GuideFacts.

(* ===================================================================== *)
(** * The loop *)
(* ===================================================================== *)

Section Loop.
Context {W : Type}.
Implicit Types (body : nat → W → result W) (it log : list nat).





(** The run of [n] steps passes through the result of each shorter run. *)
Lemma for_in_app body it1 it2 w log :
  for_in (it1 ++ it2) body w log =
    match (for_in it1 body w log).1 with
    | inl e => for_in it1 body w log
    | inr w1 => for_in it2 body w1 (for_in it1 body w log).2
    end.
Proof.
  revert w log. induction it1 as [| step rest IH]; intros w log; simpl; [reflexivity |].
  destruct (body step w) as [e | w1]; [reflexivity | apply IH].
Qed.


End Loop.

(* ===================================================================== *)
(** * One step of inference *)
(* ===================================================================== *)

Section Step.
Variable lgamma : R → R.
Variable model : (string → R) → Pyro unit.
Variable data : list R.
Hypothesis model_sp : ∀ draw, store_preserving (model draw).
Open Scope R_scope.



(** Replayed against the guide's trace, the latent site takes the
    guide's value. *)
Lemma replay_latent (fn : distribution) (f : R) (draw : string → R) :
  replay [latent_site fn f] draw "latent_fairness" = f.
Proof. unfold replay. simpl. reflexivity. Qed.

(** With a well-behaved engine and a model that returns on a fairness
    in (0,1), the step returns. *)
Lemma svi_step_returns (orc : oracle) (store : gmap string (R * constraint)) :
  (∀ draw store0, 0 < draw "latent_fairness" < 1 →
     ∃ m, model draw {| param_store := store0; trace := [] |} = inr (tt, m)) →
  well_behaved orc →
  store = ∅ ∨ positive_params store →
  ∃ loss store',
    svi_step lgamma model (Notebook.guide data) orc store = inr (loss, store')
    ∧ positive_params store'.
Proof.
  intros Hmodel [Hf [upd Hupd]] Hstore.
  destruct (guide_returns data (draws orc) store Hstore ltac:(lra))
    as (g & Hg & Hpos & fn & Htr).
  destruct (Hmodel (replay (trace g) (draws orc)) (param_store g)) as [m Hm].
  { rewrite Htr, replay_latent. exact Hf. }
  unfold svi_step. rewrite Hg, Hm, Hupd. eexists _, _. split; [reflexivity |].
  apply optim_apply_positive. rewrite (model_sp _ _ _ _ Hm). exact Hpos.
Qed.

End Step.

(* ===================================================================== *)
(** * The checkpoint variant: data and plate *)
(* ===================================================================== *)

Section CheckpointFacts.
Open Scope R_scope.

Lemma checkpoint_data_length : length Checkpoint.data = 1000%nat.
Proof.
  unfold Checkpoint.data, set_prefix, ones, zeros.
  rewrite length_app, length_drop, !length_replicate. reflexivity.
Qed.



(** What the plate hands out: 50 indices, all below its size. *)
Lemma plate_indices (perm : list nat) :
  perm ≡ₚ seq 0 100 →
  length (take 50 perm) = 50%nat ∧ Forall (λ i, i < 100)%nat (take 50 perm).
Proof.
  intros Hperm. split.
  - rewrite length_take, Hperm, length_seq. reflexivity.
  - apply Forall_take. rewrite Hperm. apply Forall_seq. intros i Hi. lia.
Qed.




(** Its log-density: the prior term and a hundred times [ln f]; no term
    in [ln (1 - f)], since no tail is ever in the batch. *)
Lemma sum_replicate (g : R → R) (n : nat) (x : R) :
  foldr Rplus 0 (g <$> replicate n x) = INR n * g x.
Proof.
  induction n as [| n IH]; [simpl; ring |].
  rewrite S_INR. cbn [replicate fmap list_fmap foldr].
  change (list_fmap R R g (replicate n x)) with (g <$> replicate n x).
  rewrite IH. ring.
Qed.

Lemma checkpoint_log_prob (lgamma : R → R) (f : R) :
  log_prob_sum lgamma [latent_site (Beta 10 10) f; batch_site f (replicate 50 1)]
  = log_prob lgamma (Beta 10 10) f + 100 * ln f.
Proof.
  unfold log_prob_sum. cbn [fmap list_fmap foldr].
  rewrite (site_log_prob_scalar lgamma _ f) by reflexivity.
  unfold site_log_prob. cbn [batch_site site_scale site_fn site_value latent_site].
  rewrite sum_replicate. cbn [log_prob].
  rewrite !INR_IZR_INZ. simpl. field.
Qed.

End CheckpointFacts.

(* ===================================================================== *)
(** * Properties of training *)
(* ===================================================================== *)

Section TrainingFacts.
Variable lgamma : R → R.




End TrainingFacts.


Lemma still_oracle_well_behaved : well_behaved still_oracle.
Proof. split; [simpl; lra | eexists; reflexivity]. Qed.







(* ===================================================================== *)
(** * More on the posterior summary *)
(* ===================================================================== *)

Section SummaryMore.
Open Scope R_scope.







End SummaryMore.










Section SummaryCellsMore.
Context {F : Type} `{PyFloat F}.
Implicit Types ns : gmap string (value F).


End SummaryCellsMore.

(* ===================================================================== *)
(** * From the trained store to the summary *)
(* ===================================================================== *)

Section Report.
Open Scope R_scope.



End Report.





(* ===================================================================== *)
(** * More on the model *)
(* ===================================================================== *)

Section ModelMore.
Open Scope R_scope.

Lemma bind_inl {A B} (m : Pyro A) (k : A → Pyro B) st e :
  m st = inl e → (m ≫= k) st = inl e.
Proof. intros Hm. unfold mbind, Pyro_bind. rewrite Hm. reflexivity. Qed.

(** One turn of the loop on a flip: the observation site is recorded. *)
Lemma model_body_returns (draw : string → R) (f : R) (data pre post : list R) (x : R)
    (st : pyro_state) :
  0 <= f <= 1 → binary x →
  data = pre ++ x :: post →
  site_name <$> trace st
    = "latent_fairness" :: ((λ i : nat, "obs_" +:+ pretty i) <$> seq 0 (length pre)) →
  (x' ← getitem data (length pre);
   _ ← sample draw ("obs_" +:+ pretty (length pre)) (Bernoulli f) (Some x');
   mret tt) st
  = inr (tt, {| param_store := param_store st;
                trace := trace st ++ [obs_site f (length pre) x] |}).
Proof.
  intros Hf Hx Hdata Hnames.
  erewrite bind_inr; cycle 1.
  { unfold getitem. rewrite Hdata, list_lookup_middle by reflexivity. reflexivity. }
  unfold sample. simpl.
  erewrite bind_inr; cycle 1.
  { erewrite bind_inr; [reflexivity |].
    apply (record_site_ok (obs_site f (length pre) x)).
    - rewrite Hnames. apply obs_name_fresh.
    - simpl. exact Hf.
    - simpl. constructor; [exact Hx | constructor]. }
  reflexivity.
Qed.

(** One turn of the loop on a value that is no flip: validation refuses it. *)
Lemma model_body_raises (draw : string → R) (f : R) (data pre post : list R) (x : R)
    (st : pyro_state) :
  ¬ binary x →
  data = pre ++ x :: post →
  site_name <$> trace st
    = "latent_fairness" :: ((λ i : nat, "obs_" +:+ pretty i) <$> seq 0 (length pre)) →
  (x' ← getitem data (length pre);
   _ ← sample draw ("obs_" +:+ pretty (length pre)) (Bernoulli f) (Some x');
   mret tt) st
  = inl ValueError.
Proof.
  intros Hx Hdata Hnames.
  erewrite bind_inr; cycle 1.
  { unfold getitem. rewrite Hdata, list_lookup_middle by reflexivity. reflexivity. }
  unfold sample. simpl.
  apply bind_inl. apply bind_inl. unfold record_site. cbn [site_name site_fn site_value].
  rewrite decide_False by (rewrite Hnames; apply obs_name_fresh).
  rewrite decide_False; [reflexivity |].
  intros [_ Hsup]. apply Forall_cons in Hsup as [Hsup _]. exact (Hx Hsup).
Qed.

(** The loop raises [ValueError] when some value ahead is no flip. *)
Lemma model_loop_raises (draw : string → R) (f : R) (data : list R) :
  0 <= f <= 1 →
  ∀ (l pre : list R) (st : pyro_state),
    data = pre ++ l →
    ¬ Forall binary l →
    site_name <$> trace st
      = "latent_fairness" :: ((λ i : nat, "obs_" +:+ pretty i) <$> seq 0 (length pre)) →
    for_enumerate (length pre) l
      (λ i j,
         x ← getitem data i;
         _ ← sample draw ("obs_" +:+ pretty i) (Bernoulli f) (Some x);
         mret tt) st
    = inl ValueError.
Proof.
  intros Hf l. induction l as [| x l IH]; intros pre st Hdata Hbad Hnames.
  - exfalso. apply Hbad. constructor.
  - cbn [for_enumerate]. destruct (decide (binary x)) as [Hx | Hx].
    + erewrite bind_inr by (eapply model_body_returns; eassumption).
      replace (S (length pre)) with (length (pre ++ [x])) by (rewrite length_app; simpl; lia).
      apply IH.
      * rewrite <- app_assoc. exact Hdata.
      * intros Hl. apply Hbad. constructor; assumption.
      * simpl. rewrite fmap_app, Hnames, length_app. simpl.
        rewrite Nat.add_1_r, seq_S, fmap_app. reflexivity.
    + apply bind_inl. eapply model_body_raises; eassumption.
Qed.

Variable lgamma : R → R.

(** The likelihood of a sequence of flips depends on the counts alone. *)
Lemma bernoulli_sum_counts (f : R) (data : list R) :
  Forall binary data →
  foldr Rplus 0 (log_prob lgamma (Bernoulli f) <$> data)
  = INR (heads data) * ln f + INR (tails data) * ln (1 - f).
Proof.
  unfold heads, tails. induction 1 as [| x l [-> | ->] _ IH].
  - simpl. ring.
  - rewrite fmap_cons. cbn [foldr]. rewrite IH.
    rewrite (filter_cons_False (λ x, x = 1)) by lra.
    rewrite (filter_cons_True (λ x, x = 0)) by reflexivity.
    cbn [length]. rewrite S_INR. cbn [log_prob]. ring.
  - rewrite fmap_cons. cbn [foldr]. rewrite IH.
    rewrite (filter_cons_True (λ x, x = 1)) by reflexivity.
    rewrite (filter_cons_False (λ x, x = 0)) by lra.
    cbn [length]. rewrite S_INR. cbn [log_prob]. ring.
Qed.

Lemma model_run_log_prob (draw : string → R) (data : list R) :
  log_prob_sum lgamma
    (latent_site (Beta 10 10) (draw "latent_fairness")
     :: imap (obs_site (draw "latent_fairness")) data)
  = log_prob lgamma (Beta 10 10) (draw "latent_fairness")
    + foldr Rplus 0 (log_prob lgamma (Bernoulli (draw "latent_fairness")) <$> data).
Proof.
  rewrite log_prob_sum_cons.
  rewrite (log_prob_sum_obs_sites lgamma _ data (λ k, k)).
  rewrite (site_log_prob_scalar lgamma _ (draw "latent_fairness")) by reflexivity.
  reflexivity.
Qed.

(** ** The sites of the trace *)

Lemma obs_sites_names (f : R) (l : list R) :
  ∀ start : nat,
    site_name <$> imap (λ k x, obs_site f (start + k) x) l
    = (λ i : nat, "obs_" +:+ pretty i) <$> seq start (length l).
Proof.
  induction l as [| x l IH]; intros start; [reflexivity |].
  rewrite imap_cons. cbn [fmap list_fmap length seq]. rewrite Nat.add_0_r. f_equal.
  rewrite <- IH. f_equal. apply imap_ext. intros k y _. simpl. f_equal. f_equal. lia.
Qed.

Lemma obs_sites_values (f : R) (l : list R) :
  ∀ g : nat → nat,
    mjoin (site_value <$> filter (λ s, site_observed s) (imap (λ k x, obs_site f (g k) x) l))
    = l.
Proof.
  induction l as [| x l IH]; intros g; [reflexivity |].
  rewrite imap_cons. rewrite filter_cons_True by exact I.
  cbn [fmap list_fmap mjoin list_join]. simpl. f_equal.
  exact (IH (g ∘ S)).
Qed.

End ModelMore.



(** X10. For a fairness [f] in (0,1) and a sequence of flips with [h]
    heads and [t] tails, the log-density of the model's trace is that of
    [f] under Beta(10, 10) plus [h * ln f + t * ln (1 - f)]. *)
Theorem model_log_prob_counts (lgamma : R → R) (draw : string → R) (data : list R)
    (store : gmap string (R * constraint)) :
  (0 < draw "latent_fairness" < 1)%R →
  Forall binary data →
  ∃ st : pyro_state,
    Notebook.model data draw {| param_store := store; trace := [] |} = inr (tt, st)
    ∧ log_prob_sum lgamma (trace st)
      = (log_prob lgamma (Beta 10 10) (draw "latent_fairness")
         + (INR (heads data) * ln (draw "latent_fairness")
            + INR (tails data) * ln (1 - draw "latent_fairness")))%R.
Proof.
  intros Hf Hbin. eexists. split; [apply model_run; assumption |].
  cbn [trace]. rewrite model_run_log_prob, bernoulli_sum_counts by exact Hbin. reflexivity.
Qed.

Lemma model_log_prob_counts_witness :
  (0 < 1 / 2 < 1)%R ∧ Forall binary Notebook.data ∧
  ∃ st : pyro_state,
    Notebook.model Notebook.data (λ _, (1 / 2)%R) {| param_store := ∅; trace := [] |}
    = inr (tt, st)
    ∧ log_prob_sum (λ _, 0%R) (trace st)
      = (log_prob (λ _, 0%R) (Beta 10 10) (1 / 2)
         + (INR (heads Notebook.data) * ln (1 / 2)
            + INR (tails Notebook.data) * ln (1 - 1 / 2)))%R.
Proof.
  split; [lra |]. split; [exact data_binary |].
  apply (model_log_prob_counts (λ _, 0%R) (λ _, (1 / 2)%R) Notebook.data ∅);
    [lra | exact data_binary].
Defined.

(** X11. The order of the flips does not matter: on two sequences of
    flips that are permutations of each other the model returns traces of
    the same log-density. *)
Theorem model_exchangeable (lgamma : R → R) (draw : string → R) (data data' : list R)
    (store : gmap string (R * constraint)) :
  (0 < draw "latent_fairness" < 1)%R →
  Forall binary data →
  data ≡ₚ data' →
  ∃ st st' : pyro_state,
    Notebook.model data draw {| param_store := store; trace := [] |} = inr (tt, st)
    ∧ Notebook.model data' draw {| param_store := store; trace := [] |} = inr (tt, st')
    ∧ log_prob_sum lgamma (trace st) = log_prob_sum lgamma (trace st').
Proof.
  intros Hf Hbin Hperm.
  assert (Hbin' : Forall binary data') by (rewrite <- Hperm; exact Hbin).
  eexists _, _. split; [apply model_run; assumption |].
  split; [apply model_run; assumption |].
  cbn [trace]. rewrite !model_run_log_prob, !bernoulli_sum_counts by assumption.
  unfold heads, tails. rewrite Hperm. reflexivity.
Qed.

Lemma model_exchangeable_witness :
  (0 < 1 / 2 < 1)%R ∧ Forall binary Notebook.data ∧ Notebook.data ≡ₚ rev Notebook.data ∧
  ∃ st st' : pyro_state,
    Notebook.model Notebook.data (λ _, (1 / 2)%R) {| param_store := ∅; trace := [] |}
    = inr (tt, st)
    ∧ Notebook.model (rev Notebook.data) (λ _, (1 / 2)%R)
        {| param_store := ∅; trace := [] |} = inr (tt, st')
    ∧ log_prob_sum (λ _, 0%R) (trace st) = log_prob_sum (λ _, 0%R) (trace st').
Proof.
  split; [lra |]. split; [exact data_binary |]. split; [apply Permutation_rev |].
  apply (model_exchangeable (λ _, 0%R) (λ _, (1 / 2)%R) Notebook.data (rev Notebook.data) ∅);
    [lra | exact data_binary | apply Permutation_rev].
Defined.

(** X12. When the model returns, its trace has one site per name,
    [latent_fairness] first and unobserved, then [obs_0], [obs_1], ... in
    the order of the data; the values of the observed sites, read in
    order, are the data. *)
Theorem model_trace_sites (draw : string → R) (data : list R)
    (store : gmap string (R * constraint)) :
  (0 < draw "latent_fairness" < 1)%R →
  Forall binary data →
  ∃ st : pyro_state,
    Notebook.model data draw {| param_store := store; trace := [] |} = inr (tt, st)
    ∧ site_name <$> trace st
      = "latent_fairness" :: ((λ i : nat, "obs_" +:+ pretty i) <$> seq 0 (length data))
    ∧ NoDup (site_name <$> trace st)
    ∧ head (trace st) = Some (latent_site (Beta 10 10) (draw "latent_fairness"))
    ∧ mjoin (site_value <$> filter (λ s, site_observed s) (trace st)) = data.
Proof.
  intros Hf Hbin. eexists. split; [apply model_run; assumption |].
  cbn [trace].
  assert (Hnames :
    site_name <$> (latent_site (Beta 10 10) (draw "latent_fairness")
                   :: imap (obs_site (draw "latent_fairness")) data)
    = "latent_fairness" :: ((λ i : nat, "obs_" +:+ pretty i) <$> seq 0 (length data))).
  { rewrite fmap_cons. f_equal.
    exact (obs_sites_names (draw "latent_fairness") data 0). }
  split; [exact Hnames |]. split; [| split; [reflexivity |]].
  - rewrite Hnames. apply NoDup_cons. split.
    + intros Hin. apply list_elem_of_fmap in Hin as (i & Heq & _).
      exact (obs_name_not_latent i (eq_sym Heq)).
    + apply NoDup_fmap_2; [intros i j; apply obs_name_inj | apply NoDup_seq].
  - rewrite filter_cons_False by (simpl; tauto).
    exact (obs_sites_values (draw "latent_fairness") data (λ k, k)).
Qed.

Lemma model_trace_sites_witness :
  (0 < 1 / 2 < 1)%R ∧ Forall binary Notebook.data ∧
  ∃ st : pyro_state,
    Notebook.model Notebook.data (λ _, (1 / 2)%R) {| param_store := ∅; trace := [] |}
    = inr (tt, st)
    ∧ NoDup (site_name <$> trace st)
    ∧ mjoin (site_value <$> filter (λ s, site_observed s) (trace st)) = Notebook.data.
Proof.
  split; [lra |]. split; [exact data_binary |].
  destruct (model_trace_sites (λ _, (1 / 2)%R) Notebook.data ∅ ltac:(lra) data_binary)
    as (st & Hrun & _ & Hnd & _ & Hvals).
  exists st. split; [exact Hrun |]. split; [exact Hnd | exact Hvals].
Defined.

(* ===================================================================== *)
(** * More on the guide, the step and the loop *)
(* ===================================================================== *)

Section StepMore.
Variable lgamma : R → R.
Open Scope R_scope.

Lemma log_prob_sum_latent (fn : distribution) (f : R) :
  log_prob_sum lgamma [latent_site fn f] = log_prob lgamma fn f.
Proof.
  rewrite log_prob_sum_cons, (site_log_prob_scalar lgamma _ f) by reflexivity.
  unfold log_prob_sum. simpl. ring.
Qed.

(** The step on a store that has both parameters, spelled out. *)
Lemma svi_step_registered (orc : oracle) (data : list R)
    (store : gmap string (R * constraint)) (ua ub : R) :
  store !! "alpha_q" = Some (ua, positive) →
  store !! "beta_q" = Some (ub, positive) →
  0 < draws orc "latent_fairness" < 1 →
  Forall binary data →
  svi_step lgamma (Notebook.model data) (Notebook.guide data) orc store
  = match optimizer orc with
    | None => inl EngineError
    | Some upd =>
        inr (log_prob lgamma (Beta (exp ua) (exp ub)) (draws orc "latent_fairness")
             - (log_prob lgamma (Beta 10 10) (draws orc "latent_fairness")
                + foldr Rplus 0
                    (log_prob lgamma (Bernoulli (draws orc "latent_fairness")) <$> data)),
             optim_apply upd store)
    end.
Proof.
  intros Ha Hb Hf Hbin. unfold svi_step.
  rewrite (guide_registered data (draws orc) store ua ub) by (assumption || (split; lra)).
  cbn [trace param_store].
  rewrite model_run by (rewrite ?replay_latent; assumption).
  cbn [trace param_store]. rewrite replay_latent.
  destruct (optimizer orc) as [upd |]; [| reflexivity].
  rewrite model_run_log_prob, log_prob_sum_latent. do 2 f_equal. ring.
Qed.

(** The first step, on the cleared store. *)
Lemma svi_step_fresh (orc : oracle) (data : list R) :
  0 < draws orc "latent_fairness" < 1 →
  Forall binary data →
  svi_step lgamma (Notebook.model data) (Notebook.guide data) orc ∅
  = match optimizer orc with
    | None => inl EngineError
    | Some upd =>
        inr (log_prob lgamma (Beta 15 15) (draws orc "latent_fairness")
             - (log_prob lgamma (Beta 10 10) (draws orc "latent_fairness")
                + foldr Rplus 0
                    (log_prob lgamma (Bernoulli (draws orc "latent_fairness")) <$> data)),
             optim_apply upd initial_store)
    end.
Proof.
  intros Hf Hbin. unfold svi_step.
  rewrite guide_fresh by (split; lra). cbn [trace param_store].
  rewrite model_run by (rewrite ?replay_latent; assumption).
  cbn [trace param_store]. rewrite replay_latent.
  destruct (optimizer orc) as [upd |]; [| reflexivity].
  rewrite model_run_log_prob, log_prob_sum_latent. do 2 f_equal. ring.
Qed.

(** The model on data with a value that is no flip. *)
Lemma model_raises (draw : string → R) (data : list R)
    (store : gmap string (R * constraint)) :
  0 < draw "latent_fairness" < 1 →
  ¬ Forall binary data →
  Notebook.model data draw {| param_store := store; trace := [] |} = inl ValueError.
Proof.
  intros Hf Hbad. unfold Notebook.model.
  erewrite bind_inr; cycle 1.
  { unfold sample. erewrite bind_inr; [reflexivity |].
    apply record_site_ok; simpl.
    - apply not_elem_of_nil.
    - split; lra.
    - constructor; [split; lra | constructor]. }
  simpl.
  apply (model_loop_raises draw (draw "latent_fairness") data ltac:(lra) data []);
    [reflexivity | exact Hbad | reflexivity].
Qed.

(** The step on data with a value that is no flip. *)
Lemma svi_step_invalid (orc : oracle) (data : list R) :
  0 < draws orc "latent_fairness" < 1 →
  ¬ Forall binary data →
  svi_step lgamma (Notebook.model data) (Notebook.guide data) orc ∅ = inl ValueError.
Proof.
  intros Hf Hbad. unfold svi_step.
  rewrite guide_fresh by (split; lra). cbn [trace param_store].
  rewrite model_raises; [reflexivity | rewrite replay_latent; exact Hf | exact Hbad].
Qed.

End StepMore.

Section LoopMore.
Context {W : Type}.
Implicit Types (body : nat → W → result W) (it log : list nat).

(** A body that returns on the states of an invariant, for the steps of
    the range, makes the loop return with all of them logged. *)
Lemma for_in_returns_log (P : W → Prop) body it :
  (∀ step w, step ∈ it → P w → ∃ w', body step w = inr w' ∧ P w') →
  ∀ w log, P w → ∃ w', for_in it body w log = (inr w', log ++ it) ∧ P w'.
Proof.
  induction it as [| step rest IH]; intros Hbody w log HP; simpl.
  - exists w. rewrite app_nil_r. split; [reflexivity | exact HP].
  - destruct (Hbody step w ltac:(left) HP) as (w1 & -> & HP1).
    destruct (IH ltac:(intros s w0 Hs; apply Hbody; right; exact Hs) w1 (log ++ [step]) HP1)
      as (w' & Hrun & HP').
    exists w'. rewrite Hrun, <- app_assoc. split; [reflexivity | exact HP'].
Qed.

End LoopMore.





(** X15. Training on data that holds a value other than 0.0 and 1.0
    stops in the first step: the cell raises [ValueError] with only step 0
    started, however many steps were asked for. *)
Theorem train_invalid_observation (lgamma : R → R) (orc : nat → oracle) (data : list R)
    (n : nat) :
  (1 ≤ n)%nat →
  (0 < draws (orc 0%nat) "latent_fairness" < 1)%R →
  ¬ Forall binary data →
  Notebook.train lgamma n orc data = (inl ValueError, [0%nat]).
Proof.
  intros Hn Hf Hbad. unfold Notebook.train, tnrange.
  destruct n as [| n]; [lia |]. cbn [seq for_in].
  rewrite svi_step_invalid by assumption. reflexivity.
Qed.

Lemma train_invalid_observation_witness :
  (1 ≤ Notebook.n_steps)%nat
  ∧ (0 < draws still_oracle "latent_fairness" < 1)%R
  ∧ ¬ Forall binary [1%R; 2%R]
  ∧ Notebook.training_cell (λ _, 0%R) (λ _, still_oracle) [1%R; 2%R]
    = (inl ValueError, [0%nat]).
Proof.
  assert (Hn : (1 ≤ Notebook.n_steps)%nat) by (unfold Notebook.n_steps; lia).
  assert (Hf : (0 < draws still_oracle "latent_fairness" < 1)%R) by (simpl; lra).
  assert (Hbad : ¬ Forall binary [1%R; 2%R]).
  { intros Hb. apply Forall_cons in Hb as [_ Hb].
    apply Forall_cons in Hb as [[H | H] _]; lra. }
  split; [exact Hn |]. split; [exact Hf |]. split; [exact Hbad |].
  exact (train_invalid_observation (λ _, 0%R) (λ _, still_oracle) [1%R; 2%R]
           Notebook.n_steps Hn Hf Hbad).
Defined.

(** X16. An exception in [svi.step] ends the loop where it happens.  If
    the engine behaves for the steps before [k] and raises at step
    [k < n], the cell raises that exception with exactly the steps 0 to
    [k] started; the steps after [k] never run. *)
Theorem train_engine_error (lgamma : R → R) (orc : nat → oracle) (data : list R)
    (n k : nat) :
  (k < n)%nat →
  (∀ j, (j < k)%nat → well_behaved (orc j)) →
  (0 < draws (orc k) "latent_fairness" < 1)%R →
  optimizer (orc k) = None →
  Forall binary data →
  Notebook.train lgamma n orc data = (inl EngineError, seq 0 (S k)).
Proof.
  intros Hk Horc Hf Hnone Hbin. unfold Notebook.train, tnrange.
  rewrite (seq_S k 0).
  replace n with (k + S (n - S k))%nat by lia.
  rewrite seq_app, for_in_app. cbn [seq].
  edestruct (for_in_returns_log (λ store, store = ∅ ∨ positive_params store)
               (λ step store,
                  drop_loss (svi_step lgamma (Notebook.model data) (Notebook.guide data)
                               (orc step) store))
               (seq 0 k)) as (wk & Hrun & HP); [| left; reflexivity |].
  - intros step store Hstep HP. apply elem_of_seq in Hstep.
    destruct (svi_step_returns lgamma (Notebook.model data) data (sp_model data)
                (orc step) store) as (loss & store' & Hs & Hpos);
      [| apply Horc; lia | exact HP |].
    + intros draw store0 Hd. eexists. apply model_run; assumption.
    + rewrite Hs. simpl. eauto.
  - rewrite Hrun. cbn [fst snd for_in].
    assert (Hstep : svi_step lgamma (Notebook.model data) (Notebook.guide data) (orc k) wk
                    = inl EngineError).
    { destruct HP as [-> | [[ua Ha] [ub Hb]]].
      - rewrite svi_step_fresh, Hnone by assumption. reflexivity.
      - rewrite (svi_step_registered lgamma (orc k) data wk ua ub), Hnone by assumption.
        reflexivity. }
    change (0 + k)%nat with k. rewrite Hstep. reflexivity.
Qed.

Lemma train_engine_error_witness :
  (2 < Notebook.n_steps)%nat
  ∧ Notebook.training_cell (λ _, 0%R)
      (λ j, if (j =? 2)%nat then {| draws := λ _, (1 / 2)%R; optimizer := None |}
            else still_oracle)
      Notebook.data
    = (inl EngineError, seq 0 3).
Proof.
  assert (Hn : (2 < Notebook.n_steps)%nat) by (unfold Notebook.n_steps; lia).
  split; [exact Hn |]. unfold Notebook.training_cell.
  apply (train_engine_error (λ _, 0%R)
           (λ j, if (j =? 2)%nat then {| draws := λ _, (1 / 2)%R; optimizer := None |}
                 else still_oracle)
           Notebook.data Notebook.n_steps 2 Hn).
  - intros j Hj. assert (Hne : (j =? 2)%nat = false) by (apply Nat.eqb_neq; lia).
    rewrite Hne. exact still_oracle_well_behaved.
  - simpl. lra.
  - reflexivity.
  - exact data_binary.
Defined.

(* ===================================================================== *)
(** * More on the checkpoint variant *)
(* ===================================================================== *)

Section CheckpointMore.
Open Scope R_scope.



(** The checkpoint model with the plate reduced. *)
Lemma checkpoint_model_unfold (data : list R) (perm : list nat) (draw : string → R)
    (st : pyro_state) :
  Checkpoint.model data perm draw st
  = (f ← sample draw "latent_fairness" (Beta 10 10) None;
     obs ← index_select data (take 50 perm);
     _ ← sample_batch "obs" (Bernoulli f) obs (INR 100 / INR 50);
     mret tt) st.
Proof.
  unfold Checkpoint.model, mbind, Pyro_bind.
  destruct (sample draw "latent_fairness" (Beta 10 10) None st) as [e | [f st1]];
    reflexivity.
Qed.

(** The latent site of the checkpoint model, on an empty trace. *)
Lemma checkpoint_latent (draw : string → R) (store : gmap string (R * constraint)) :
  0 < draw "latent_fairness" < 1 →
  sample draw "latent_fairness" (Beta 10 10) None {| param_store := store; trace := [] |}
  = inr (draw "latent_fairness",
         {| param_store := store;
            trace := [latent_site (Beta 10 10) (draw "latent_fairness")] |}).
Proof.
  intros Hf. unfold sample. erewrite bind_inr; [reflexivity |].
  apply record_site_ok; simpl.
  - apply not_elem_of_nil.
  - split; lra.
  - constructor; [split; lra | constructor].
Qed.

End CheckpointMore.

Section CheckpointSelect.
Open Scope R_scope.

(** With at least 100 entries, every index of the plate is in range. *)
Lemma plate_lookups_some (data : list R) (perm : list nat) :
  perm ≡ₚ seq 0 100 → (100 ≤ length data)%nat →
  ∃ obs, mapM (λ i, data !! i) (take 50 perm) = Some obs.
Proof.
  intros Hperm Hlen. destruct (plate_indices perm Hperm) as [_ Hind].
  apply mapM_is_Some. eapply Forall_impl; [exact Hind |].
  intros i Hi. simpl in *. apply lookup_lt_is_Some_2. lia.
Qed.


(** What is selected under the plate comes from the first 100 entries. *)
Lemma plate_lookups_binary (data : list R) (perm : list nat) (obs : list R) :
  perm ≡ₚ seq 0 100 →
  Forall binary (take 100 data) →
  mapM (λ i, data !! i) (take 50 perm) = Some obs →
  Forall binary obs ∧ length obs = 50%nat.
Proof.
  intros Hperm Hbin Hm. destruct (plate_indices perm Hperm) as [Hl Hind].
  apply mapM_Some in Hm. split.
  - eapply Forall2_Forall_r; [exact Hm |].
    eapply Forall_impl; [exact Hind |]. intros i Hi y Hy. simpl in Hi.
    rewrite Forall_forall in Hbin. apply Hbin.
    apply list_elem_of_lookup. exists i. rewrite lookup_take_lt by exact Hi. exact Hy.
  - rewrite <- (Forall2_length _ _ _ Hm). exact Hl.
Qed.

(** The checkpoint model on a batch of flips. *)
Lemma checkpoint_model_batch (draw : string → R) (data : list R) (perm : list nat)
    (obs : list R) (store : gmap string (R * constraint)) :
  0 < draw "latent_fairness" < 1 →
  mapM (λ i, data !! i) (take 50 perm) = Some obs →
  Forall binary obs →
  Checkpoint.model data perm draw {| param_store := store; trace := [] |}
  = inr (tt, {| param_store := store;
                trace := [latent_site (Beta 10 10) (draw "latent_fairness");
                          batch_site (draw "latent_fairness") obs] |}).
Proof.
  intros Hf Hm Hbin. rewrite checkpoint_model_unfold.
  erewrite bind_inr by (apply checkpoint_latent; exact Hf).
  erewrite bind_inr; cycle 1.
  { unfold index_select. rewrite Hm. reflexivity. }
  erewrite bind_inr; cycle 1.
  { unfold sample_batch. erewrite bind_inr; [reflexivity |].
    apply record_site_ok; cbn [site_name site_fn site_value trace fmap list_fmap].
    - intros Hin. apply list_elem_of_singleton in Hin. discriminate Hin.
    - simpl. lra.
    - exact Hbin. }
  reflexivity.
Qed.

End CheckpointSelect.





(** X19. On a tensor of at least 100 entries whose first 100 are flips
    the checkpoint model returns, and the log-density of its trace is that
    of the fairness under Beta(10, 10) plus twice the Bernoulli
    log-density of the 50 selected flips: the plate scales the batch by
    100 / 50. *)
Theorem checkpoint_log_prob_scaled (lgamma : R → R) (data : list R) (perm : list nat)
    (draw : string → R) (store : gmap string (R * constraint)) :
  perm ≡ₚ seq 0 100 →
  (0 < draw "latent_fairness" < 1)%R →
  (100 ≤ length data)%nat →
  Forall binary (take 100 data) →
  ∃ (obs : list R) (st : pyro_state),
    mapM (λ i, data !! i) (take 50 perm) = Some obs
    ∧ length obs = 50%nat
    ∧ Checkpoint.model data perm draw {| param_store := store; trace := [] |} = inr (tt, st)
    ∧ log_prob_sum lgamma (trace st)
      = (log_prob lgamma (Beta 10 10) (draw "latent_fairness")
         + 2 * foldr Rplus 0 (log_prob lgamma (Bernoulli (draw "latent_fairness")) <$> obs))%R.
Proof.
  intros Hperm Hf Hlen Hbin.
  destruct (plate_lookups_some data perm Hperm Hlen) as [obs Hobs].
  destruct (plate_lookups_binary data perm obs Hperm Hbin Hobs) as [Hobin Holen].
  exists obs. eexists. split; [exact Hobs |]. split; [exact Holen |].
  split; [apply (checkpoint_model_batch draw data perm obs); assumption |].
  cbn [trace]. rewrite log_prob_sum_cons.
  rewrite (site_log_prob_scalar lgamma _ (draw "latent_fairness")) by reflexivity.
  rewrite log_prob_sum_cons. unfold site_log_prob at 1.
  cbn [batch_site site_scale site_fn site_value latent_site].
  unfold log_prob_sum. cbn [fmap list_fmap foldr].
  rewrite !INR_IZR_INZ. simpl IZR.
  change (list_fmap R R (log_prob lgamma (Bernoulli (draw "latent_fairness"))) obs)
    with (log_prob lgamma (Bernoulli (draw "latent_fairness")) <$> obs).
  field.
Qed.

Lemma checkpoint_log_prob_scaled_witness :
  rev (seq 0 100) ≡ₚ seq 0 100
  ∧ (0 < 1 / 2 < 1)%R
  ∧ (100 ≤ length Checkpoint.data)%nat
  ∧ Forall binary (take 100 Checkpoint.data)
  ∧ ∃ (obs : list R) (st : pyro_state),
      mapM (λ i, Checkpoint.data !! i) (take 50 (rev (seq 0 100))) = Some obs
      ∧ length obs = 50%nat
      ∧ Checkpoint.model Checkpoint.data (rev (seq 0 100)) (λ _, (1 / 2)%R)
          {| param_store := ∅; trace := [] |} = inr (tt, st)
      ∧ log_prob_sum (λ _, 0%R) (trace st)
        = (log_prob (λ _, 0%R) (Beta 10 10) (1 / 2)
           + 2 * foldr Rplus 0 (log_prob (λ _, 0%R) (Bernoulli (1 / 2)) <$> obs))%R.
Proof.
  assert (Hperm : rev (seq 0 100) ≡ₚ seq 0 100) by (symmetry; apply Permutation_rev).
  assert (Hf : (0 < 1 / 2 < 1)%R) by lra.
  assert (Hlen : (100 ≤ length Checkpoint.data)%nat) by (rewrite checkpoint_data_length; lia).
  assert (Hbin : Forall binary (take 100 Checkpoint.data)).
  { change (take 100 Checkpoint.data) with (replicate 100 1%R).
    apply Forall_replicate. right. reflexivity. }
  split; [exact Hperm |]. split; [exact Hf |]. split; [exact Hlen |]. split; [exact Hbin |].
  exact (checkpoint_log_prob_scaled (λ _, 0%R) Checkpoint.data (rev (seq 0 100))
           (λ _, (1 / 2)%R) ∅ Hperm Hf Hlen Hbin).
Defined.

(* ===================================================================== *)
(** * The helper [gamma] of the checkpoint notebook *)
(* ===================================================================== *)

Lemma factorial_nonneg (n : Z) :
  (0 ≤ n)%Z → Checkpoint.factorial n = inr (Z.of_nat (fact (Z.to_nat n))).
Proof.
  intros Hn. unfold Checkpoint.factorial.
  destruct (n <? 0)%Z eqn:Hlt; [apply Z.ltb_lt in Hlt; lia | reflexivity].
Qed.

Lemma fact_pos (n : nat) : (1 ≤ fact n)%nat.
Proof. induction n as [| n IH]; simpl; lia. Qed.

(** X20. For an integer [x >= 1], [gamma] returns a value [g >= 1] and
    satisfies the recurrence of the Gamma function:
    [gamma(x + 1) = x * gamma(x)]. *)
Theorem gamma_recurrence (x : Z) :
  (1 ≤ x)%Z →
  ∃ g : Z,
    Checkpoint.gamma x = inr g ∧ (1 ≤ g)%Z ∧ Checkpoint.gamma (x + 1) = inr (x * g)%Z.
Proof.
  intros Hx. unfold Checkpoint.gamma.
  rewrite !factorial_nonneg by lia. eexists. split; [reflexivity |]. split.
  - pose proof (fact_pos (Z.to_nat (x - 1))). lia.
  - f_equal. replace (x + 1 - 1)%Z with (Z.succ (x - 1)) by lia.
    rewrite Z2Nat.inj_succ by lia. rewrite fact_simpl, Nat2Z.inj_mul.
    f_equal. rewrite Nat2Z.inj_succ, Z2Nat.id by lia. lia.
Qed.

Lemma gamma_recurrence_witness :
  (1 ≤ 4)%Z ∧
  ∃ g : Z, Checkpoint.gamma 4 = inr g ∧ (1 ≤ g)%Z ∧ Checkpoint.gamma (4 + 1) = inr (4 * g)%Z.
Proof. split; [lia |]. apply (gamma_recurrence 4). lia. Defined.


(* ===================================================================== *)
(** * The printed message *)
(* ===================================================================== *)

Section Printing.




End Printing.


(** Ties go to the even thousandth, and the summary at the initial values
    prints as the notebook would print it. *)
Example format_f3_ties :
  format_f3 (Binary64.of_Z 1 (-4)) = "0.062"
  ∧ format_f3 (Binary64.of_Z 3 (-4)) = "0.188"
  ∧ format_f3 (SFopp (Binary64.of_Z 3 (-1))) = "-1.500".
Proof. vm_compute. repeat split. Qed.

Example cell_print_initial :
  summarize ns_b64 ≫= cell_print
  = Some "Based on the data and our prior belief, the fairness of the coin is 0.500 +- 0.090".
Proof. vm_compute. reflexivity. Qed.
